(** * Intelligent interruption handling: the backchannel classifier

    A shallow embedding of
    [livekit-agents/livekit/agents/voice/interrupt_config.py] and of the
    session options set up in [examples/voice_agents/basic_agent.py].

    Text is a Python [str] over the code points below 256 and four more:
    U+0178, U+039C and U+03BC, which [str.upper()] and [str.lower()] reach
    from below 256, and the dotless i U+0131, which [str.upper()] takes to
    the letter I.  The string methods the classifier calls ([lower],
    [strip], [replace], [split], [in]) are written out below with CPython's
    behaviour on these code points; on them [lower] gives one character for
    each character and none outside. *)

From Stdlib Require Import List Bool Ascii String NArith ZArith QArith.
From Stdlib Require Import Lia.
Import ListNotations.

Local Open Scope bool_scope.
Local Open Scope list_scope.

(** ** Python strings *)

Module PyStr.

(** A code point: [Chr a] is the one with the number of [a], below 256. *)
Inductive char :=
| Chr (a : ascii)
| U0131
| U0178
| U039C
| U03BC.

Definition char_dec (a b : char) : {a = b} + {a <> b}.
Proof. decide equality. apply ascii_dec. Defined.

(** [a == b] on characters. *)
Definition char_eqb (a b : char) : bool :=
  if char_dec a b then true else false.

Definition str := list char.

(** A string literal of the source. *)
Definition py (s : string) : str := map Chr (list_ascii_of_string s).

Definition ord (c : char) : N :=
  match c with
  | Chr a => N_of_ascii a
  | U0131 => 305
  | U0178 => 376
  | U039C => 924
  | U03BC => 956
  end.

(** [c.isspace()]: the characters [str.strip()] and [str.split()] treat as
    white space.  Among the code points above these are 9-13, 28-32, 133
    and 160. *)
Definition isspace (c : char) : bool :=
  let n := ord c in
  ((9 <=? n) && (n <=? 13) || (28 <=? n) && (n <=? 32)
   || (n =? 133) || (n =? 160))%N.

(** [c.isupper()]: A-Z, the Latin-1 capitals 192-222 without the
    multiplication sign 215, U+0178 and U+039C. *)
Definition isupper (c : char) : bool :=
  let n := ord c in
  ((65 <=? n) && (n <=? 90)
   || (192 <=? n) && (n <=? 222) && negb (n =? 215)
   || (n =? 376) || (n =? 924))%N.

(** [c.lower()]: the capitals below 256 go 32 up, U+0178 goes to 255 and
    U+039C to U+03BC. *)
Definition lower_char (c : char) : char :=
  if isupper c then
    match c with
    | Chr _ => Chr (ascii_of_N (ord c + 32))
    | U0178 => Chr (ascii_of_N 255)
    | U039C => U03BC
    | _ => c
    end
  else c.

(** [s.lower()] *)
Definition lower (s : str) : str := map lower_char s.

Fixpoint lstrip (s : str) : str :=
  match s with
  | [] => []
  | c :: s' => if isspace c then lstrip s' else s
  end.

Definition rstrip (s : str) : str := rev (lstrip (rev s)).

(** [s.strip()] *)
Definition strip (s : str) : str := rstrip (lstrip s).

(** [s.replace(c, '')] for a one-character [c]: every occurrence goes. *)
Definition remove_char (c : char) (s : str) : str :=
  filter (fun x => negb (char_eqb x c)) s.

(** [s.split()]: the maximal runs of characters that are not white space,
    in order; no empty string is ever produced. *)
Fixpoint split (s : str) : list str :=
  match s with
  | [] => []
  | c :: s' =>
      if isspace c then split s'
      else match s' with
           | [] => [[c]]
           | d :: _ =>
               if isspace d then [c] :: split s'
               else match split s' with
                    | w :: ws => (c :: w) :: ws
                    | [] => [[c]]
                    end
           end
  end.

(** [s.startswith(p)] *)
Fixpoint startswith (p s : str) : bool :=
  match p, s with
  | [], _ => true
  | _ :: _, [] => false
  | a :: p', b :: s' => char_eqb a b && startswith p' s'
  end.

(** [p in s]: [p] occurs in [s] as a contiguous substring. *)
Fixpoint contains (p s : str) : bool :=
  startswith p s ||
  match s with
  | [] => false
  | _ :: s' => contains p s'
  end.

Definition str_eqb (a b : str) : bool :=
  if list_eq_dec char_dec a b then true else false.

(** [w in S] for a set of strings [S], given by its elements. *)
Definition mem (w : str) (S : list str) : bool := existsb (str_eqb w) S.

End PyStr.
Import PyStr.

(** ** interrupt_config.py *)

Module InterruptConfig.

(** The module's two global names. *)
Record Env := {
  BACKCHANNEL_WORDS : list str;
  COMMAND_WORDS : list str
}.

(** The sets the module binds them to when it is imported. *)
Definition module_env : Env := {|
  BACKCHANNEL_WORDS :=
    [ py "yeah"; py "ok"; py "okay"; py "hmm"; py "right"; py "uh-huh";
      py "aha"; py "mhm"; py "gotcha"; py "understood"; py "yep";
      py "sure"; py "alright"; py "yup"; py "uh"; py "mhmm" ];
  COMMAND_WORDS :=
    [ py "wait"; py "stop"; py "no"; py "hold"; py "but";
      py "however"; py "actually"; py "listen"; py "hang" ]
|}.

(** What the two debugging [print]s send to [sys.stderr]. *)
Inductive DebugLine :=
| DebugCalled (text : str)
| DebugWords (words : list str) (result : bool).

Definition Stderr := list DebugLine.

(** Computations that may print to [sys.stderr]. *)
Definition IO (A : Type) : Type := Stderr -> A * Stderr.

Definition ret {A} (a : A) : IO A := fun err => (a, err).
Definition bind {A B} (m : IO A) (k : A -> IO B) : IO B :=
  fun err => let (a, err') := m err in k a err'.
Definition print (l : DebugLine) : IO unit := fun err => (tt, err ++ [l]).

Notation "m ;; k" := (bind m (fun _ => k))
  (at level 61, right associativity).

(** [text.lower().strip()] *)
Definition text_lower_of (text : str) : str := strip (lower text).

(** [text_lower.replace(',', '').replace('.', '').replace('!', '')
      .replace('?', '').split()] *)
Definition words_of (text_lower : str) : list str :=
  split (remove_char (Chr "?") (remove_char (Chr "!") (remove_char (Chr ".")
          (remove_char (Chr ",") text_lower)))).

(** The token sequence of a transcript. *)
Definition normalize (text : str) : list str := words_of (text_lower_of text).

Definition is_backchannel_only (env : Env) (text : str) : IO bool :=
  print (DebugCalled text) ;;
  match text with
  | [] => ret false
  | _ :: _ =>
      let text_lower := text_lower_of text in
      if existsb (fun cmd => contains cmd text_lower) (COMMAND_WORDS env)
      then ret false
      else
        let words := words_of text_lower in
        if (List.length words =? 0)%nat then ret false
        else
          let result :=
            forallb (fun word => mem word (BACKCHANNEL_WORDS env)) words in
          print (DebugWords words result) ;;
          ret result
  end.

(** The value the call returns. *)
Definition returns (env : Env) (text : str) (err : Stderr) : bool :=
  fst (is_backchannel_only env text err).

End InterruptConfig.
Import InterruptConfig.

(** The punctuation marks the classifier removes. *)
Definition is_punct (c : char) : bool :=
  char_eqb c (Chr ",") || char_eqb c (Chr ".") || char_eqb c (Chr "!")
  || char_eqb c (Chr "?").

(** Strings without white space, and strings of white space only. *)
Definition nospace (s : str) : bool := forallb (fun c => negb (isspace c)) s.
Definition allspace (s : str) : bool := forallb isspace s.

(** Two lists with the same elements: the same Python set, whatever the
    order in which it is iterated. *)
Definition same_set (A B : list str) : bool :=
  forallb (fun w => mem w B) A && forallb (fun w => mem w A) B.

(** No command word is empty, holds white space or one of the removed
    punctuation marks, or occurs inside a backchannel word. *)
Definition separated (env : Env) : bool :=
  forallb (fun cmd =>
    negb (str_eqb cmd []) && nospace cmd
    && forallb (fun c => negb (is_punct c)) cmd
    && forallb (fun b => negb (contains cmd b)) (BACKCHANNEL_WORDS env))
    (COMMAND_WORDS env).

(** The claim that empty text has a verdict of its own, as the
    specification words it. *)
Definition empty_verdict_distinct (env : Env) : Prop :=
  forall t t' err,
    normalize t = [] -> normalize t' <> [] ->
    returns env t err <> returns env t' err.

(** The normalizer in the words of the specification: lowercase, the four
    punctuation marks removed, split on white space. *)
Definition normalize_spec (text : str) : list str :=
  split (filter (fun c => negb (is_punct c)) (lower text)).

(** [c.upper()]: a-z and the Latin-1 small letters 224-254 without the
    division sign 247 go 32 down; the sharp s 223 becomes "SS"; the micro
    sign 181 and U+03BC become U+039C, 255 becomes U+0178 and the dotless i
    becomes the letter I. *)
Definition upper_char (c : char) : list char :=
  match c with
  | Chr _ =>
      let n := ord c in
      if ((97 <=? n) && (n <=? 122)
          || (224 <=? n) && (n <=? 254) && negb (n =? 247))%N
      then [Chr (ascii_of_N (n - 32))]
      else if (n =? 223)%N then [Chr "S"; Chr "S"]
      else if (n =? 181)%N then [U039C]
      else if (n =? 255)%N then [U0178]
      else [c]
  | U0131 => [Chr "I"]
  | U03BC => [U039C]
  | U0178 | U039C => [c]
  end.

(** [s.upper()] *)
Definition upper (s : str) : str := flat_map upper_char s.

(** Text of ASCII characters. *)
Definition is_ascii (c : char) : bool := (ord c <? 128)%N.

(** The claim that the result ignores case, as the specification words
    it, with the upper-case form as the case variant. *)
Definition case_insensitive_as_stated (env : Env) : Prop :=
  forall text err,
    returns env (upper text) err = returns env text err.

(** The word "right" written with a dotless i. *)
Definition right_dotless : str :=
  [Chr "r"; U0131; Chr "g"; Chr "h"; Chr "t"].

(** The module's sets, iterated the other way round. *)
Definition module_env_reversed : Env := {|
  BACKCHANNEL_WORDS := rev (BACKCHANNEL_WORDS module_env);
  COMMAND_WORDS := rev (COMMAND_WORDS module_env)
|}.

(** The token sets of the specification's concrete scenario. *)
Definition scenario_env : Env := {|
  BACKCHANNEL_WORDS := [ py "yeah"; py "ok"; py "mhm" ];
  COMMAND_WORDS := [ py "wait"; py "stop" ]
|}.

(** ** basic_agent.py *)

Module BasicAgent.

(** The keyword arguments [entrypoint] gives to [AgentSession]; the
    turn detector and the VAD are objects of other packages and are left
    out. *)
Record AgentSessionOptions := {
  stt : string;
  llm : string;
  tts : string;
  preemptive_generation : bool;
  resume_false_interruption : bool;
  false_interruption_timeout : Q
}.

Definition entrypoint_session : AgentSessionOptions := {|
  stt := "deepgram/nova-3";
  llm := "openai/gpt-4o-mini";
  tts := "cartesia/sonic-2:9626c31c-bec5-4cca-baa8-f8ba9e84c8bc";
  preemptive_generation := true;
  resume_false_interruption := true;
  false_interruption_timeout := 1.0
|}.

End BasicAgent.

(** ** The interruption arbiter *)

Module Arbiter.

(** Modelled from the spec: the data model of section 3.  The session
    runtime that holds the arbiter is not among the source files. *)
Inductive ClassificationVerdict :=
| Empty | BackchannelOnly | ContainsCommand | Mixed.

Inductive ArbiterState :=
| Idle | AgentSpeaking | Interrupted | PendingResume.

Definition instant := Q.

Record ResumeTimer := { deadline : instant; generation : Z }.

(** Modelled from the spec: what the session sends to the arbiter
    (section 6) and the timer's callback; an utterance comes with the
    classifier's verdict on it. *)
Inductive Event :=
| started
| finishedNormally
| revisedToNonActionable
| sessionTeardown
| utterance (v : ClassificationVerdict)
| timerFired (gen : Z).

(** Modelled from the spec: what the arbiter sends back (section 6). *)
Inductive Command := interrupt | resume | suppressed.

(** Modelled from the spec: one session's arbiter, with the generation
    counter of its timer, the timer that is running, if any, and the
    configured timeout. *)
Record Arbiter := {
  state : ArbiterState;
  last_generation : Z;
  pending : option ResumeTimer;
  resumeTimeout : Q
}.

(** Modelled from the spec: a transition to [s]; it cancels the timer. *)
Definition goto (a : Arbiter) (s : ArbiterState) : Arbiter :=
  {| state := s; last_generation := last_generation a;
     pending := None; resumeTimeout := resumeTimeout a |}.

(** Modelled from the spec: the arbiter's transition function, which lives
    in the session runtime and is not among the source files.  Section 4.3
    gives the transitions, section 4.4 the timer's generations and section 7
    the events that change nothing (an [Empty] verdict, a stale timer). *)
Definition step (now : instant) (a : Arbiter) (ev : Event)
  : Arbiter * list Command :=
  match state a, ev with
  | Idle, started => (goto a AgentSpeaking, [])
  | AgentSpeaking, utterance BackchannelOnly => (a, [suppressed])
  | AgentSpeaking, utterance (ContainsCommand | Mixed) =>
      (goto a Interrupted, [interrupt])
  | AgentSpeaking, finishedNormally => (goto a Idle, [])
  | Interrupted, revisedToNonActionable =>
      let g := (last_generation a + 1)%Z in
      ({| state := PendingResume; last_generation := g;
          pending := Some {| deadline := now + resumeTimeout a;
                             generation := g |};
          resumeTimeout := resumeTimeout a |}, [])
  | PendingResume, utterance (BackchannelOnly | ContainsCommand | Mixed) =>
      (goto a Interrupted, [])
  | PendingResume, timerFired g =>
      match pending a with
      | Some t =>
          if (generation t =? g)%Z then (goto a AgentSpeaking, [resume])
          else (a, [])
      | None => (a, [])
      end
  | (Interrupted | PendingResume), sessionTeardown => (goto a Idle, [])
  | _, _ => (a, [])
  end.

(** Modelled from the spec: when the running timer fires.  It does once the
    clock has reached its deadline; an utterance that arrives at the
    deadline itself goes first (the tie-break of section 4.3). *)
Definition due (t : instant) (ev : option Event) (tm : ResumeTimer) : bool :=
  match ev with
  | Some (utterance _) => negb (Qle_bool t (deadline tm))
  | _ => Qle_bool (deadline tm) t
  end.

(** Modelled from the spec: the callback of a timer that is due, carrying
    the timer's generation. *)
Definition fire_due (t : instant) (ev : option Event) (a : Arbiter)
  : Arbiter * list Command :=
  match pending a with
  | Some tm =>
      if due t ev tm then step (deadline tm) a (timerFired (generation tm))
      else (a, [])
  | None => (a, [])
  end.

(** Modelled from the spec: one session's serialized stream of events, each
    with its arrival time, followed by silence up to [horizon]. *)
Fixpoint run (horizon : instant) (a : Arbiter)
    (events : list (instant * Event)) : Arbiter * list Command :=
  match events with
  | [] => fire_due horizon None a
  | (t, ev) :: rest =>
      let (a1, c1) := fire_due t (Some ev) a in
      let (a2, c2) := step t a1 ev in
      let (a3, c3) := run horizon a2 rest in
      (a3, c1 ++ c2 ++ c3)
  end.

(** Modelled from the spec: the arbiter a session creates, with the
    session's [false_interruption_timeout] as its [resumeTimeout]. *)
Definition new_arbiter (o : BasicAgent.AgentSessionOptions) : Arbiter :=
  {| state := Idle; last_generation := 0; pending := None;
     resumeTimeout := BasicAgent.false_interruption_timeout o |}.

End Arbiter.

Import Arbiter.

(** The claim that the classifier tells the four inputs of the scenario
    apart, as the specification words it: a reading of the returned value
    as a verdict gives each input the verdict named for it. *)
Definition scenario_as_stated (env : Env) : Prop :=
  exists verdict : bool -> ClassificationVerdict,
    verdict (returns env (py "yeah yeah ok") []) = BackchannelOnly /\
    verdict (returns env (py "ok but wait") []) = ContainsCommand /\
    verdict (returns env (py "") []) = Empty /\
    verdict (returns env (py "sure thats great") []) = Mixed.

(** * Properties *)

(** ** String primitives *)

Section StrLemmas.

Lemma char_eqb_eq (a b : char) : char_eqb a b = true <-> a = b.
Proof.
  unfold char_eqb. destruct (char_dec a b); split; congruence.
Qed.

Lemma char_eqb_refl (a : char) : char_eqb a a = true.
Proof. now apply char_eqb_eq. Qed.

Lemma str_eqb_eq (a b : str) : str_eqb a b = true <-> a = b.
Proof.
  unfold str_eqb. destruct (list_eq_dec char_dec a b); split; congruence.
Qed.

Lemma mem_In (w : str) (S : list str) : mem w S = true <-> In w S.
Proof.
  unfold mem. rewrite existsb_exists. split.
  - intros [x [Hx He]]. apply str_eqb_eq in He. now subst.
  - intros H. exists w. split; [assumption | now apply str_eqb_eq].
Qed.

Lemma startswith_app (p s : str) :
  startswith p s = true <-> exists b, s = p ++ b.
Proof.
  revert s. induction p as [|a p IH]; intros s; simpl.
  - split; [intros _; now exists s | reflexivity].
  - destruct s as [|c s].
    + split; [discriminate | intros [b Hb]; discriminate].
    + rewrite andb_true_iff, char_eqb_eq, IH. split.
      * intros [-> [b ->]]. now exists b.
      * intros [b Hb]. injection Hb as -> ->. split; [reflexivity | now exists b].
Qed.

Lemma contains_app (p s : str) :
  contains p s = true <-> exists a b, s = a ++ p ++ b.
Proof.
  induction s as [|c s IH]; simpl.
  - rewrite orb_false_r, startswith_app. split.
    + intros [b Hb]. now exists [], b.
    + intros [a [b Hab]]. destruct a; [now exists b | discriminate].
  - rewrite orb_true_iff, startswith_app, IH. split.
    + intros [[b Hb] | [a [b Hab]]].
      * now exists [], b.
      * exists (c :: a), b. now rewrite Hab.
    + intros [a [b Hab]]. destruct a as [|x a].
      * left. now exists b.
      * right. injection Hab as _ ->. now exists a, b.
Qed.

Lemma contains_cons (p : str) (c : char) (s : str) :
  contains p s = true -> contains p (c :: s) = true.
Proof. intros H. simpl. rewrite H. apply orb_true_r. Qed.

Lemma contains_filter (f : char -> bool) (p s : str) :
  forallb f p = true -> contains p s = true ->
  contains p (filter f s) = true.
Proof.
  intros Hp Hc. apply contains_app in Hc as [a [b ->]].
  apply contains_app. exists (filter f a), (filter f b).
  rewrite !filter_app. do 2 f_equal.
  clear -Hp. induction p as [|x p IH]; simpl in *; [reflexivity|].
  apply andb_true_iff in Hp as [-> Hp]. now rewrite IH.
Qed.

Lemma startswith_contains (p s : str) :
  startswith p s = true -> contains p s = true.
Proof. intros H. destruct s; simpl in *; rewrite H; reflexivity. Qed.

Lemma split_cons_space (c : char) (s : str) :
  isspace c = true -> split (c :: s) = split s.
Proof. intros H. simpl. now rewrite H. Qed.

Lemma split_cons_word (c : char) (s : str) :
  isspace c = false ->
  split (c :: s) =
  match s with
  | [] => [[c]]
  | d :: _ =>
      if isspace d then [c] :: split s
      else match split s with
           | w :: ws => (c :: w) :: ws
           | [] => [[c]]
           end
  end.
Proof. intros H. destruct s; simpl; rewrite H; reflexivity. Qed.

Lemma split_head (c : char) (s : str) :
  isspace c = false -> exists w ws, split (c :: s) = (c :: w) :: ws.
Proof.
  intros H. rewrite (split_cons_word _ _ H). destruct s as [|d s].
  - now exists [], [].
  - destruct (isspace d).
    + now exists [], (split (d :: s)).
    + destruct (split (d :: s)) as [|w ws]; [now exists [], [] | now exists w, ws].
Qed.

Lemma split_allspace (w : str) : allspace w = true -> split w = [].
Proof.
  induction w as [|c w IH]; [reflexivity|]. simpl.
  intros H. apply andb_true_iff in H as [-> H]. auto.
Qed.

Lemma split_app_space_l (w s : str) :
  allspace w = true -> split (w ++ s) = split s.
Proof.
  induction w as [|c w IH]; [reflexivity|]. simpl.
  intros H. apply andb_true_iff in H as [-> H]. auto.
Qed.

Lemma split_app_space_r (s w : str) :
  allspace w = true -> split (s ++ w) = split s.
Proof.
  intros Hw. induction s as [|c s IH].
  - simpl. now apply split_allspace.
  - rewrite <- app_comm_cons. destruct (isspace c) eqn:Hc.
    + now rewrite !split_cons_space.
    + rewrite !split_cons_word by assumption. destruct s as [|d s].
      * simpl app. destruct w as [|x w]; [reflexivity|].
        simpl in Hw. apply andb_true_iff in Hw as [Hx Hw].
        rewrite Hx, split_cons_space by assumption.
        now rewrite split_allspace.
      * rewrite <- app_comm_cons in *. now rewrite IH.
Qed.

(** Every token is non-empty and free of white space. *)
Lemma split_tokens (s : str) :
  Forall (fun w => w <> [] /\ nospace w = true) (split s).
Proof.
  induction s as [|c s IH]; [constructor|].
  destruct (isspace c) eqn:Hc; [now rewrite split_cons_space|].
  rewrite split_cons_word by assumption.
  assert (Hone : [c] <> [] /\ nospace [c] = true).
  { split; [discriminate | simpl; now rewrite Hc]. }
  destruct s as [|d s]; [now repeat constructor|].
  destruct (isspace d); [now constructor|].
  destruct (split (d :: s)) as [|w ws]; [now repeat constructor|].
  inversion IH as [|? ? [_ Hw] Hws]; subst. constructor; [|assumption].
  split; [discriminate | simpl; now rewrite Hc, Hw].
Qed.

(** Splitting drops the white space and nothing else. *)
Lemma concat_split (s : str) :
  List.concat (split s) = filter (fun c => negb (isspace c)) s.
Proof.
  induction s as [|c s IH]; [reflexivity|].
  destruct (isspace c) eqn:Hc.
  - rewrite split_cons_space by assumption. simpl. now rewrite Hc.
  - rewrite split_cons_word by assumption. cbn [filter]. rewrite Hc.
    cbn [negb]. rewrite <- IH. destruct s as [|d s]; [reflexivity|].
    destruct (isspace d) eqn:Hd; [reflexivity|].
    destruct (split (d :: s)) as [|w ws] eqn:Hs; [|reflexivity].
    destruct (split_head d s Hd) as [w [ws H]]. congruence.
Qed.

Lemma split_startswith (p s : str) :
  p <> [] -> nospace p = true -> startswith p s = true ->
  exists t ws, split s = t :: ws /\ startswith p t = true.
Proof.
  intros Hne Hp Hs. apply startswith_app in Hs as [b ->].
  induction p as [|x p IH]; [congruence|].
  simpl in Hp. apply andb_true_iff in Hp as [Hx Hp].
  apply negb_true_iff in Hx. destruct p as [|y p].
  - destruct (split_head x b Hx) as [w [ws H]]. exists (x :: w), ws.
    split; [exact H|]. simpl. now rewrite char_eqb_refl.
  - destruct IH as [t [ws [H Ht]]]; [discriminate | assumption |].
    assert (Hy : isspace y = false).
    { simpl in Hp. apply andb_true_iff in Hp as [Hy _].
      now apply negb_true_iff in Hy. }
    exists (x :: t), ws. split.
    + change ((x :: y :: p) ++ b) with (x :: (y :: p) ++ b).
      rewrite split_cons_word by assumption.
      rewrite <- app_comm_cons in *. now rewrite Hy, H.
    + simpl in Ht |- *. now rewrite char_eqb_refl.
Qed.

(** A word without white space that occurs in a text occurs in one of
    its tokens. *)
Lemma split_contains (p s : str) :
  p <> [] -> nospace p = true -> contains p s = true ->
  exists t, In t (split s) /\ contains p t = true.
Proof.
  intros Hne Hp. induction s as [|c s IH]; intros Hc.
  - simpl in Hc. rewrite orb_false_r in Hc. destruct p; [congruence | discriminate].
  - cbn [contains] in Hc. apply orb_true_iff in Hc as [Hc | Hc].
    + destruct (split_startswith _ _ Hne Hp Hc) as [t [ws [H Ht]]].
      exists t. rewrite H. split; [now left | now apply startswith_contains].
    + destruct (IH Hc) as [t [Hin Ht]]. clear IH.
      destruct (isspace c) eqn:Hsp.
      * exists t. now rewrite split_cons_space.
      * rewrite split_cons_word by assumption.
        destruct s as [|d s]; [contradiction|].
        destruct (isspace d); [exists t; split; [now right | assumption]|].
        destruct (split (d :: s)) as [|w ws]; [contradiction|].
        destruct Hin as [<- | Hin].
        -- exists (c :: w). split; [now left | now apply contains_cons].
        -- exists t. split; [now right | assumption].
Qed.

Lemma lstrip_decomp (s : str) :
  exists w, s = w ++ lstrip s /\ allspace w = true.
Proof.
  induction s as [|c s [w [Hs Hw]]]; [now exists []|].
  simpl. destruct (isspace c) eqn:Hc.
  - exists (c :: w). split; [simpl; congruence | simpl; now rewrite Hc].
  - now exists [].
Qed.

Lemma allspace_rev (w : str) : allspace (rev w) = allspace w.
Proof.
  unfold allspace. induction w as [|c w IH]; [reflexivity|].
  simpl. rewrite forallb_app, IH. simpl. rewrite andb_true_r. apply andb_comm.
Qed.

Lemma rstrip_decomp (s : str) :
  exists w, s = rstrip s ++ w /\ allspace w = true.
Proof.
  unfold rstrip. destruct (lstrip_decomp (rev s)) as [w [Hs Hw]].
  exists (rev w). split; [|now rewrite allspace_rev].
  rewrite <- rev_app_distr, <- Hs. symmetry. apply rev_involutive.
Qed.

Lemma strip_decomp (s : str) :
  exists w1 w2, s = w1 ++ strip s ++ w2 /\
                allspace w1 = true /\ allspace w2 = true.
Proof.
  unfold strip. destruct (lstrip_decomp s) as [w1 [H1 Hw1]].
  destruct (rstrip_decomp (lstrip s)) as [w2 [H2 Hw2]].
  exists w1, w2. repeat split; try assumption. now rewrite <- H2.
Qed.

Lemma allspace_filter (f : char -> bool) (w : str) :
  allspace w = true -> allspace (filter f w) = true.
Proof.
  unfold allspace. induction w as [|c w IH]; [reflexivity|]. simpl.
  intros H. apply andb_true_iff in H as [Hc H].
  destruct (f c); simpl; [rewrite Hc|]; auto.
Qed.

Lemma split_filter_strip (f : char -> bool) (s : str) :
  split (filter f (strip s)) = split (filter f s).
Proof.
  destruct (strip_decomp s) as [w1 [w2 [Hs [H1 H2]]]].
  rewrite Hs at 2. rewrite !filter_app, app_assoc.
  rewrite split_app_space_r by now apply allspace_filter.
  now rewrite split_app_space_l by now apply allspace_filter.
Qed.

Lemma contains_strip (p s : str) :
  contains p (strip s) = true -> contains p s = true.
Proof.
  intros H. apply contains_app in H as [a [b Hab]].
  destruct (strip_decomp s) as [w1 [w2 [Hs _]]].
  apply contains_app. exists (w1 ++ a), (b ++ w2).
  rewrite Hs, Hab. now rewrite <- !app_assoc.
Qed.

End StrLemmas.

(** ** The classifier *)

Section Classifier.

Variable env : Env.

Lemma filter_twice (f g : char -> bool) (s : str) :
  filter f (filter g s) = filter (fun c => g c && f c) s.
Proof.
  induction s as [|c s IH]; [reflexivity|]. simpl.
  destruct (g c); simpl; [destruct (f c)|]; now rewrite IH.
Qed.

Lemma words_of_filter (s : str) :
  words_of s = split (filter (fun c => negb (is_punct c)) s).
Proof.
  unfold words_of, remove_char. rewrite !filter_twice. f_equal.
  apply filter_ext. intros c. unfold is_punct.
  now rewrite !negb_orb, !andb_assoc.
Qed.

(** When the call returns [True]: it got past both guards and the command
    scan, and [all] found every word in the backchannel set. *)
Lemma returns_true_iff (text : str) (err : Stderr) :
  returns env text err = true <->
  text <> [] /\
  existsb (fun cmd => contains cmd (text_lower_of text)) (COMMAND_WORDS env)
    = false /\
  normalize text <> [] /\
  forallb (fun w => mem w (BACKCHANNEL_WORDS env)) (normalize text) = true.
Proof.
  unfold returns, is_backchannel_only, bind, print, ret, normalize.
  destruct text as [|c text]; simpl fst.
  - split; [discriminate | intros [H _]; congruence].
  - set (tl := text_lower_of (c :: text)).
    destruct (existsb _ (COMMAND_WORDS env)); simpl fst.
    + split; [discriminate | intros [_ [H _]]; discriminate].
    + destruct (words_of tl) as [|w ws] eqn:Hw; simpl.
      * split; [discriminate | intros [_ [_ [H _]]]; congruence].
      * split; [intros ->; repeat split; discriminate | tauto].
Qed.

(** The result does not depend on what [sys.stderr] already holds. *)
Lemma returns_stderr (text : str) (err err' : Stderr) :
  returns env text err = returns env text err'.
Proof.
  destruct (returns env text err') eqn:H.
  - apply returns_true_iff. now apply returns_true_iff in H.
  - destruct (returns env text err) eqn:H'; [|reflexivity].
    apply returns_true_iff in H'.
    apply (proj2 (returns_true_iff text err')) in H'. congruence.
Qed.

(** In a text whose tokens are all backchannel words no command word
    occurs, when the two sets are [separated]. *)
Lemma backchannel_text_no_command (text : str) :
  separated env = true ->
  forallb (fun w => mem w (BACKCHANNEL_WORDS env)) (normalize text) = true ->
  existsb (fun cmd => contains cmd (text_lower_of text)) (COMMAND_WORDS env)
    = false.
Proof.
  intros Hsep Hall. destruct (existsb _ _) eqn:Hex; [|reflexivity].
  exfalso. apply existsb_exists in Hex as [cmd [Hin Hc]].
  unfold separated in Hsep. rewrite forallb_forall in Hsep.
  specialize (Hsep _ Hin).
  apply andb_true_iff in Hsep as [Hsep Hbc].
  apply andb_true_iff in Hsep as [Hsep Hpunct].
  apply andb_true_iff in Hsep as [Hne Hsp].
  assert (Hnil : cmd <> []).
  { intros ->. discriminate. }
  apply (contains_filter _ _ _ Hpunct) in Hc.
  apply (split_contains _ _ Hnil Hsp) in Hc as [t [Ht Hct]].
  unfold normalize in Hall. rewrite words_of_filter in Hall.
  rewrite forallb_forall in Hall, Hbc. specialize (Hall _ Ht).
  apply mem_In in Hall. specialize (Hbc _ Hall). now rewrite Hct in Hbc.
Qed.

End Classifier.

Lemma module_env_separated : separated module_env = true.
Proof. vm_compute. reflexivity. Qed.

Lemma scenario_env_separated : separated scenario_env = true.
Proof. vm_compute. reflexivity. Qed.

(** C1: a text whose token sequence is not empty and holds backchannel
    words only is classified as backchannel-only: [is_backchannel_only]
    returns [True]. *)
Theorem all_backchannel_returns_true (text : str) (err : Stderr) :
  normalize text <> [] ->
  Forall (fun w => In w (BACKCHANNEL_WORDS module_env)) (normalize text) ->
  returns module_env text err = true.
Proof.
  intros Hne Hall.
  assert (Hb : forallb (fun w => mem w (BACKCHANNEL_WORDS module_env))
                 (normalize text) = true).
  { apply forallb_forall. intros w Hw. apply mem_In.
    rewrite Forall_forall in Hall. now apply Hall. }
  apply returns_true_iff. repeat split; try assumption.
  - intros ->. now apply Hne.
  - apply backchannel_text_no_command; [apply module_env_separated | exact Hb].
Qed.

Lemma all_backchannel_witness :
  returns module_env (py "Yeah, uh-huh... OKAY!") [] = true.
Proof.
  apply all_backchannel_returns_true.
  - vm_compute. discriminate.
  - vm_compute. repeat constructor; simpl; tauto.
Defined.

Lemma module_env_disjoint :
  forallb (fun cmd => negb (mem cmd (BACKCHANNEL_WORDS module_env)))
    (COMMAND_WORDS module_env) = true.
Proof. vm_compute. reflexivity. Qed.

Lemma returns_true_tokens (env : Env) (text : str) (err : Stderr) :
  returns env text err = true ->
  normalize text <> [] /\
  Forall (fun w => In w (BACKCHANNEL_WORDS env)) (normalize text).
Proof.
  intros H. apply returns_true_iff in H as [_ [_ [Hne Hall]]].
  split; [assumption|]. apply Forall_forall. intros w Hw.
  rewrite forallb_forall in Hall. now apply mem_In, Hall.
Qed.

(** C2: a text with a command word among its tokens is never classified
    as backchannel-only, whatever backchannel words stand next to it:
    [is_backchannel_only] returns [False]. *)
Theorem command_token_returns_false (text w : str) (err : Stderr) :
  In w (normalize text) ->
  In w (COMMAND_WORDS module_env) ->
  returns module_env text err = false.
Proof.
  intros Hw Hcmd. destruct (returns module_env text err) eqn:H; [|reflexivity].
  exfalso. apply returns_true_tokens in H as [_ Hall].
  rewrite Forall_forall in Hall. specialize (Hall _ Hw).
  pose proof module_env_disjoint as Hd. rewrite forallb_forall in Hd.
  specialize (Hd _ Hcmd). apply mem_In in Hall. now rewrite Hall in Hd.
Qed.

Lemma command_token_witness :
  returns module_env (py "yeah ok yeah STOP, okay") [] = false.
Proof.
  apply (command_token_returns_false _ (py "stop")).
  - vm_compute. tauto.
  - vm_compute. tauto.
Defined.

(** C3: [is_backchannel_only] returns [True] only for a text whose token
    sequence is not empty and holds backchannel words only; a text without
    tokens and a text with a token outside the backchannel set get
    [False]. *)
Theorem returns_true_only_backchannel (env : Env) (text : str) (err : Stderr) :
  returns env text err = true ->
  normalize text <> [] /\
  Forall (fun w => In w (BACKCHANNEL_WORDS env)) (normalize text).
Proof. apply returns_true_tokens. Qed.

Lemma returns_true_only_backchannel_witness :
  normalize (py "mhm, right") <> [] /\
  Forall (fun w => In w (BACKCHANNEL_WORDS module_env))
    (normalize (py "mhm, right")).
Proof.
  apply (returns_true_only_backchannel module_env _ []). reflexivity.
Defined.

(** C10: the command check is a substring test on the lowered, stripped
    text, made before the punctuation goes: a command word that occurs
    anywhere in it, also inside a longer word, makes [is_backchannel_only]
    return [False]. *)
Theorem command_substring_returns_false
    (env : Env) (text cmd : str) (err : Stderr) :
  In cmd (COMMAND_WORDS env) ->
  contains cmd (text_lower_of text) = true ->
  returns env text err = false.
Proof.
  intros Hin Hc. destruct (returns env text err) eqn:H; [|reflexivity].
  apply returns_true_iff in H as [_ [Hex _]].
  assert (Ht : existsb (fun cmd => contains cmd (text_lower_of text))
                 (COMMAND_WORDS env) = true).
  { apply existsb_exists. now exists cmd. }
  congruence.
Qed.

Lemma command_substring_witness :
  returns module_env (py "  Yeah, WAITING.") [] = false.
Proof.
  apply (command_substring_returns_false _ _ (py "wait")).
  - vm_compute. tauto.
  - vm_compute. reflexivity.
Defined.

Example substring_waiting : returns module_env (py "waiting") [] = false.
Proof. reflexivity. Qed.

Example substring_nothing : returns module_env (py "nothing") [] = false.
Proof. reflexivity. Qed.

(** A command word split by a punctuation mark is not found by the
    substring test; the token it collapses to is not a backchannel word. *)
Example substring_before_removal :
  existsb (fun cmd => contains cmd (text_lower_of (py "wa,it")))
    (COMMAND_WORDS module_env) = false /\
  normalize (py "wa,it") = [py "wait"] /\
  returns module_env (py "wa,it") [] = false.
Proof. repeat split. Qed.

(** ** The normalizer *)

Ltac each_char c :=
  destruct c as [[[] [] [] [] [] [] [] []] | | | |]; vm_compute; reflexivity.

Lemma isspace_lower_char (c : char) : isspace (lower_char c) = isspace c.
Proof. each_char c. Qed.

Lemma lower_upper_char (c : char) :
  is_ascii c = true -> lower (upper_char c) = [lower_char c].
Proof.
  destruct c as [[[] [] [] [] [] [] [] []] | | | |]; vm_compute; intros H;
    solve [reflexivity | discriminate H].
Qed.

Lemma allspace_lower (s : str) : allspace (lower s) = allspace s.
Proof.
  unfold allspace, lower. induction s as [|c s IH]; [reflexivity|].
  simpl. now rewrite isspace_lower_char, IH.
Qed.

Lemma normalize_eq_spec (text : str) : normalize text = normalize_spec text.
Proof.
  unfold normalize, normalize_spec, text_lower_of.
  rewrite words_of_filter. apply split_filter_strip.
Qed.

Lemma normalize_allspace (text : str) :
  allspace text = true -> normalize text = [].
Proof.
  intros H. rewrite normalize_eq_spec. unfold normalize_spec.
  apply split_allspace, allspace_filter. now rewrite allspace_lower.
Qed.

(** C4, as the code has it: empty or blank text has no tokens and
    [is_backchannel_only] returns [False] for it, the value it also
    returns for a command. *)
Theorem blank_text_returns_false (env : Env) (text : str) (err : Stderr) :
  allspace text = true ->
  normalize text = [] /\ returns env text err = false.
Proof.
  intros H. pose proof (normalize_allspace _ H) as Hn. split; [exact Hn|].
  destruct (returns env text err) eqn:Hr; [|reflexivity].
  apply returns_true_tokens in Hr as [Hne _]. congruence.
Qed.

Lemma blank_text_witness :
  normalize (py "   ") = [] /\ returns module_env (py "   ") [] = false.
Proof. apply blank_text_returns_false. reflexivity. Defined.

(** C4, as the specification states it, fails: the empty text and the
    command "stop" get the same result. *)
Lemma empty_verdict_not_distinct : ~ empty_verdict_distinct module_env.
Proof.
  intros H. apply (H (py "") (py "stop") []).
  - reflexivity.
  - vm_compute. discriminate.
  - reflexivity.
Qed.

(** C5, as the code has it: the normalizer lowercases, drops the white
    space and the four marks [, . ! ?] where they stand and keeps every
    other character in its place; each token is a non-empty run without
    white space.  The apostrophe is kept: "don't" stays "don't". *)
Theorem normalize_removes_four_marks (text : str) :
  normalize text = normalize_spec text /\
  List.concat (normalize text) =
    filter (fun c => negb (is_punct c) && negb (isspace c)) (lower text) /\
  Forall (fun w => w <> [] /\ nospace w = true) (normalize text) /\
  normalize (py "don't") = [py "don't"].
Proof.
  repeat split.
  - apply normalize_eq_spec.
  - rewrite normalize_eq_spec. unfold normalize_spec.
    now rewrite concat_split, filter_twice.
  - rewrite normalize_eq_spec. apply split_tokens.
Qed.

(** C5, as the specification states it, fails at its own example. *)
Lemma dont_keeps_apostrophe : normalize (py "don't") <> [py "dont"].
Proof. vm_compute. discriminate. Qed.

(** ** Case *)

Lemma lower_upper_ascii (t : str) :
  forallb is_ascii t = true -> lower (upper t) = lower t.
Proof.
  induction t as [|c t IH]; [reflexivity|]. simpl. intros H.
  apply andb_true_iff in H as [Hc H]. unfold lower in *.
  rewrite map_app. fold (lower (upper_char c)).
  now rewrite (lower_upper_char _ Hc), IH.
Qed.

Lemma returns_lower (env : Env) (s t : str) (err : Stderr) :
  lower s = lower t -> returns env s err = returns env t err.
Proof.
  intros H.
  assert (Hnil : s <> [] <-> t <> []).
  { destruct s, t; try discriminate; split; congruence. }
  assert (Hiff : returns env s err = true <-> returns env t err = true).
  { rewrite !returns_true_iff. unfold normalize, text_lower_of.
    rewrite H. tauto. }
  destruct (returns env s err), (returns env t err);
    try reflexivity; [symmetry|]; now apply Hiff.
Qed.

(** C6, as the code has it: the result depends on the text through its
    lower-case form only: two texts with the same lower-case form get the
    same result, and so do a text of ASCII characters and its upper-case
    form. *)
Theorem same_lower_same_result (env : Env) (s t : str) (err : Stderr) :
  (lower s = lower t -> returns env s err = returns env t err) /\
  (forallb is_ascii t = true ->
   returns env (upper t) err = returns env t err).
Proof.
  split.
  - apply returns_lower.
  - intros H. apply returns_lower. now apply lower_upper_ascii.
Qed.

Lemma same_lower_same_result_witness :
  returns module_env (py "YeAh, oKaY") [] =
    returns module_env (py "yeah, OKAY") [] /\
  returns module_env (upper (py "yeah, OKAY")) [] =
    returns module_env (py "yeah, OKAY") [].
Proof.
  destruct (same_lower_same_result module_env
              (py "YeAh, oKaY") (py "yeah, OKAY") []) as [H1 H2].
  split; [apply H1 | apply H2]; reflexivity.
Defined.

(** C6, as the specification states it, fails: "right" with a dotless i is
    not a backchannel word, but its upper-case form is "RIGHT", which is
    lowered to the backchannel word "right". *)
Lemma dotless_i_changes_result : ~ case_insensitive_as_stated module_env.
Proof.
  intros H. specialize (H right_dotless []). vm_compute in H. discriminate.
Qed.

Example dotless_i_results :
  upper right_dotless = py "RIGHT" /\
  returns module_env right_dotless [] = false /\
  returns module_env (upper right_dotless) [] = true.
Proof. repeat split. Qed.

(** ** Determinism *)

Lemma same_set_In (A B : list str) :
  same_set A B = true -> forall w, In w A <-> In w B.
Proof.
  unfold same_set. rewrite andb_true_iff, !forallb_forall.
  intros [HAB HBA] w. split; intros H; apply mem_In; auto.
Qed.

Lemma existsb_same (f : str -> bool) (A B : list str) :
  (forall w, In w A <-> In w B) -> existsb f A = existsb f B.
Proof.
  intros H. destruct (existsb f B) eqn:HB.
  - apply existsb_exists in HB as [x [Hx Hf]].
    apply existsb_exists. exists x. split; [now apply H | assumption].
  - destruct (existsb f A) eqn:HA; [|reflexivity].
    apply existsb_exists in HA as [x [Hx Hf]].
    rewrite <- HB. symmetry. apply existsb_exists.
    exists x. split; [now apply H | assumption].
Qed.

Lemma returns_same_sets (env env' : Env) (text : str) (err : Stderr) :
  same_set (BACKCHANNEL_WORDS env) (BACKCHANNEL_WORDS env') = true ->
  same_set (COMMAND_WORDS env) (COMMAND_WORDS env') = true ->
  returns env text err = returns env' text err.
Proof.
  intros Hb Hc. pose proof (same_set_In _ _ Hb) as Hb'.
  pose proof (same_set_In _ _ Hc) as Hc'.
  assert (Hiff : returns env text err = true <-> returns env' text err = true).
  { rewrite !returns_true_iff.
    rewrite (existsb_same _ _ _ Hc').
    assert (Hm : forall ws,
      forallb (fun w => mem w (BACKCHANNEL_WORDS env)) ws =
      forallb (fun w => mem w (BACKCHANNEL_WORDS env')) ws).
    { intros ws. induction ws as [|w ws IH]; [reflexivity|]. simpl.
      unfold mem at 1 3. now rewrite (existsb_same _ _ _ Hb'), IH. }
    rewrite Hm. tauto. }
  destruct (returns env text err), (returns env' text err);
    try reflexivity; [symmetry|]; now apply Hiff.
Qed.

Lemma is_backchannel_only_appends (env : Env) (text : str) (err : Stderr) :
  exists out, snd (is_backchannel_only env text err) = err ++ out.
Proof.
  unfold is_backchannel_only, bind, print, ret.
  destruct text as [|c text]; [now eexists|].
  destruct (existsb _ _); [now eexists|].
  destruct (_ =? 0)%nat; [now eexists|].
  simpl. rewrite <- app_assoc. now eexists.
Qed.

(** C7: the classifier is deterministic and keeps no state: its result is
    fixed by the text and the two word sets (as sets: neither the order in
    which a set is iterated nor what was printed before matters), a second
    call on the same text returns what the first returned, and all a call
    leaves behind are its lines on [sys.stderr]. *)
Theorem is_backchannel_only_deterministic
    (env env' : Env) (text : str) (err err' : Stderr) :
  same_set (BACKCHANNEL_WORDS env) (BACKCHANNEL_WORDS env') = true ->
  same_set (COMMAND_WORDS env) (COMMAND_WORDS env') = true ->
  returns env text err = returns env' text err' /\
  (let (r1, err1) := is_backchannel_only env text err in
   let (r2, _) := is_backchannel_only env text err1 in r2 = r1) /\
  (exists out, snd (is_backchannel_only env text err) = err ++ out).
Proof.
  intros Hb Hc. repeat split.
  - rewrite (returns_stderr env text err err'). now apply returns_same_sets.
  - pose proof (returns_stderr env text err
                  (snd (is_backchannel_only env text err))) as H.
    unfold returns in H.
    destruct (is_backchannel_only env text err) as [r1 err1]. simpl in H.
    destruct (is_backchannel_only env text err1) as [r2 err2]. now simpl in H.
  - apply is_backchannel_only_appends.
Qed.

Lemma is_backchannel_only_deterministic_witness :
  returns module_env (py "Sure, right!") [] =
    returns module_env_reversed (py "Sure, right!") [DebugCalled (py "stop")]
  /\
  (let (r1, err1) := is_backchannel_only module_env (py "Sure, right!") [] in
   let (r2, _) := is_backchannel_only module_env (py "Sure, right!") err1 in
   r2 = r1) /\
  (exists out,
     snd (is_backchannel_only module_env (py "Sure, right!") []) = [] ++ out).
Proof.
  apply (is_backchannel_only_deterministic module_env module_env_reversed);
    vm_compute; reflexivity.
Defined.

(** ** The scenario *)

(** C8, as the code has it: on the scenario's inputs the classifier
    returns [True] for "yeah yeah ok" and [False] for "ok but wait", for
    the empty text and for "sure thats great", with the scenario's word
    sets and with the module's own; the lines on [sys.stderr] show the path
    taken. *)
Theorem scenario_results :
  is_backchannel_only scenario_env (py "yeah yeah ok") [] =
    (true, [DebugCalled (py "yeah yeah ok");
            DebugWords [py "yeah"; py "yeah"; py "ok"] true]) /\
  is_backchannel_only scenario_env (py "ok but wait") [] =
    (false, [DebugCalled (py "ok but wait")]) /\
  is_backchannel_only scenario_env (py "") [] =
    (false, [DebugCalled (py "")]) /\
  is_backchannel_only scenario_env (py "sure thats great") [] =
    (false, [DebugCalled (py "sure thats great");
             DebugWords [py "sure"; py "thats"; py "great"] false]) /\
  returns module_env (py "yeah yeah ok") [] = true /\
  returns module_env (py "ok but wait") [] = false /\
  returns module_env (py "") [] = false /\
  returns module_env (py "sure thats great") [] = false.
Proof. repeat split. Qed.

(** C8, as the specification states it, fails: the empty text and
    "ok but wait" get the same value, so no reading of the result gives one
    the verdict [Empty] and the other [ContainsCommand]. *)
Lemma scenario_verdicts_not_apart : ~ scenario_as_stated scenario_env.
Proof.
  intros [verdict [_ [Hcmd [Hempty _]]]].
  change (returns scenario_env (py "ok but wait") []) with false in Hcmd.
  change (returns scenario_env (py "") []) with false in Hempty.
  congruence.
Qed.

(** ** The arbiter *)

Lemma entrypoint_timeout :
  (resumeTimeout (new_arbiter BasicAgent.entrypoint_session) == 1)%Q.
Proof. reflexivity. Qed.

Lemma step_revised (t0 : instant) (a : Arbiter) :
  state a = Interrupted ->
  step t0 a revisedToNonActionable =
    ({| state := PendingResume;
        last_generation := (last_generation a + 1)%Z;
        pending := Some {| deadline := t0 + resumeTimeout a;
                           generation := (last_generation a + 1)%Z |};
        resumeTimeout := resumeTimeout a |}, []).
Proof. intros H. unfold step. now rewrite H. Qed.

Lemma fire_due_interrupted (t : instant) (ev : option Event) (a : Arbiter) :
  state a = Interrupted -> fire_due t ev a = (a, []).
Proof.
  intros H. unfold fire_due. destruct (pending a) as [tm|]; [|reflexivity].
  destruct (due t ev tm); [|reflexivity]. unfold step. now rewrite H.
Qed.

(** C9: from [Interrupted], [revisedToNonActionable] leads to
    [PendingResume]; when nothing else arrives until the timeout has
    passed, the arbiter issues [resume] once, ends in [AgentSpeaking], and
    a later callback of the timer issues nothing.  The session of
    [entrypoint] sets the timeout to 1. *)
Theorem false_interruption_resumes (a : Arbiter) (t0 horizon : instant) :
  state a = Interrupted ->
  (t0 + resumeTimeout a <= horizon)%Q ->
  state (fst (step t0 a revisedToNonActionable)) = PendingResume /\
  snd (step t0 a revisedToNonActionable) = [] /\
  state (fst (run horizon a [(t0, revisedToNonActionable)])) = AgentSpeaking /\
  snd (run horizon a [(t0, revisedToNonActionable)]) = [resume] /\
  (forall t g,
     snd (step t (fst (run horizon a [(t0, revisedToNonActionable)]))
            (timerFired g)) = []) /\
  (resumeTimeout (new_arbiter BasicAgent.entrypoint_session) == 1)%Q.
Proof.
  intros Hs Hle. rewrite (step_revised t0 a Hs).
  assert (Hrun : run horizon a [(t0, revisedToNonActionable)] =
                 ({| state := AgentSpeaking;
                     last_generation := (last_generation a + 1)%Z;
                     pending := None;
                     resumeTimeout := resumeTimeout a |}, [resume])).
  { cbn [run]. rewrite (fire_due_interrupted _ _ _ Hs).
    rewrite (step_revised t0 a Hs). unfold fire_due, due. cbn [pending deadline].
    apply Qle_bool_iff in Hle. rewrite Hle.
    unfold step. cbn [state pending generation]. now rewrite Z.eqb_refl. }
  rewrite Hrun. cbn [fst snd state].
  split; [reflexivity|]. split; [reflexivity|]. split; [reflexivity|].
  split; [reflexivity|]. split; [intros t g; reflexivity|].
  exact entrypoint_timeout.
Qed.

Lemma false_interruption_resumes_witness :
  state (fst (step 5 (goto (new_arbiter BasicAgent.entrypoint_session)
                        Interrupted) revisedToNonActionable))
    = PendingResume /\
  snd (run 6 (goto (new_arbiter BasicAgent.entrypoint_session) Interrupted)
         [(5, revisedToNonActionable)]) = [resume].
Proof.
  assert (Hle : (5 + resumeTimeout
                     (goto (new_arbiter BasicAgent.entrypoint_session)
                        Interrupted) <= 6)%Q).
  { vm_compute. discriminate. }
  destruct (false_interruption_resumes
              (goto (new_arbiter BasicAgent.entrypoint_session) Interrupted)
              5 6 eq_refl Hle)
    as [H1 [_ [_ [H4 _]]]].
  split; [exact H1 | exact H4].
Defined.

(** An utterance that arrives at the deadline goes before the timer: the
    resume is cancelled. *)
Example utterance_at_deadline_cancels :
  run 10 (goto (new_arbiter BasicAgent.entrypoint_session) Interrupted)
    [(5, revisedToNonActionable); (6, utterance Mixed)] =
  ({| state := Interrupted; last_generation := 1; pending := None;
      resumeTimeout := 1.0 |}, []).
Proof. reflexivity. Qed.

(** * Further properties of the classifier *)

(** ** The result as a function of the tokens *)

Lemma returns_tokens (env : Env) (text : str) (err : Stderr) :
  separated env = true ->
  returns env text err =
  match normalize text with
  | [] => false
  | ws => forallb (fun w => mem w (BACKCHANNEL_WORDS env)) ws
  end.
Proof.
  intros Hsep. destruct (returns env text err) eqn:Hr.
  - apply returns_true_iff in Hr as [_ [_ [Hne Hall]]].
    destruct (normalize text); [congruence | now symmetry].
  - destruct (normalize text) as [|w ws] eqn:Hn; [reflexivity|].
    destruct (forallb _ (w :: ws)) eqn:Hall; [|reflexivity].
    rewrite <- Hr. apply returns_true_iff.
    rewrite Hn. repeat split; try discriminate; try assumption.
    + intros ->. discriminate.
    + apply backchannel_text_no_command; [assumption | now rewrite Hn].
Qed.

Lemma forallb_same (f : str -> bool) (A B : list str) :
  (forall w, In w A <-> In w B) -> forallb f A = forallb f B.
Proof.
  intros H. destruct (forallb f B) eqn:HB.
  - rewrite forallb_forall in *. intros x Hx. now apply HB, H.
  - destruct (forallb f A) eqn:HA; [|reflexivity].
    rewrite <- HB. symmetry. rewrite forallb_forall in *.
    intros x Hx. now apply HA, H.
Qed.

(** X1: when no command word is empty, holds white space or a removed mark,
    or occurs inside a backchannel word (as with the module's sets), the
    scan for command words never changes the result: the call returns
    [True] exactly when the text has a token and every token is a
    backchannel word. *)
Theorem command_scan_redundant (env : Env) (text : str) (err : Stderr) :
  separated env = true ->
  returns env text err =
  negb (List.length (normalize text) =? 0)%nat
  && forallb (fun w => mem w (BACKCHANNEL_WORDS env)) (normalize text).
Proof.
  intros Hsep. rewrite (returns_tokens env text err Hsep).
  now destruct (normalize text).
Qed.

Lemma command_scan_redundant_witness :
  returns module_env (py "Right... but why?") [] =
  negb (List.length (normalize (py "Right... but why?")) =? 0)%nat
  && forallb (fun w => mem w (BACKCHANNEL_WORDS module_env))
       (normalize (py "Right... but why?")).
Proof.
  apply (command_scan_redundant module_env). vm_compute. reflexivity.
Defined.

(** X2: with such sets the result depends on the text only through the set
    of its tokens: two texts with the same tokens, in whatever order and
    however often repeated, get the same result. *)
Theorem same_tokens_same_result
    (env : Env) (s t : str) (err err' : Stderr) :
  separated env = true ->
  (forall w, In w (normalize s) <-> In w (normalize t)) ->
  returns env s err = returns env t err'.
Proof.
  intros Hsep H.
  rewrite (returns_tokens env s err Hsep), (returns_tokens env t err' Hsep).
  revert H. generalize (normalize s), (normalize t). intros A B H.
  destruct A as [|a ws], B as [|b ws']; try reflexivity.
  - destruct (proj2 (H b) (or_introl eq_refl)).
  - destruct (proj1 (H a) (or_introl eq_refl)).
  - now apply forallb_same.
Qed.

Lemma same_tokens_same_result_witness :
  returns module_env (py "ok, yeah! ok?") [] =
  returns module_env (py "  YEAH   OK  ") [DebugCalled (py "stop")].
Proof.
  apply (same_tokens_same_result module_env).
  - vm_compute. reflexivity.
  - intros w. vm_compute. tauto.
Defined.

(** ** White space around the text *)

Lemma lstrip_allspace (w : str) : allspace w = true -> lstrip w = [].
Proof.
  induction w as [|c w IH]; [reflexivity|]. simpl.
  intros H. apply andb_true_iff in H as [-> H]. auto.
Qed.

Lemma lstrip_app_space_l (w s : str) :
  allspace w = true -> lstrip (w ++ s) = lstrip s.
Proof.
  induction w as [|c w IH]; [reflexivity|]. simpl.
  intros H. apply andb_true_iff in H as [-> H]. auto.
Qed.

Lemma lstrip_app_r (s w : str) :
  lstrip (s ++ w) = if allspace s then lstrip w else lstrip s ++ w.
Proof.
  induction s as [|c s IH]; [reflexivity|]. simpl.
  destruct (isspace c); [exact IH | reflexivity].
Qed.

Lemma rstrip_app_space_r (s w : str) :
  allspace w = true -> rstrip (s ++ w) = rstrip s.
Proof.
  intros H. unfold rstrip. rewrite rev_app_distr.
  now rewrite lstrip_app_space_l by now rewrite allspace_rev.
Qed.

Lemma strip_pad (w1 s w2 : str) :
  allspace w1 = true -> allspace w2 = true ->
  strip (w1 ++ s ++ w2) = strip s.
Proof.
  intros H1 H2. unfold strip.
  rewrite lstrip_app_space_l by assumption. rewrite lstrip_app_r.
  destruct (allspace s) eqn:Hs.
  - now rewrite (lstrip_allspace _ H2), (lstrip_allspace _ Hs).
  - now apply rstrip_app_space_r.
Qed.

(** The result depends on the text through [text.lower().strip()] only. *)
Lemma returns_text_lower (env : Env) (s t : str) (err err' : Stderr) :
  text_lower_of s = text_lower_of t ->
  returns env s err = returns env t err'.
Proof.
  intros H.
  assert (Hnil : forall x, normalize x <> [] -> x <> []).
  { intros x Hx ->. now apply Hx. }
  assert (Hiff : returns env s err = true <-> returns env t err' = true).
  { rewrite !returns_true_iff. unfold normalize in *. rewrite H.
    split; intros [_ [Hc [Hn Hall]]]; repeat split; try assumption;
      apply Hnil; unfold normalize; congruence. }
  destruct (returns env s err), (returns env t err');
    try reflexivity; [symmetry|]; now apply Hiff.
Qed.

(** X3: white space before and after the text never changes the result,
    whatever the two word sets are. *)
Theorem padding_ignored (env : Env) (w1 text w2 : str) (err : Stderr) :
  allspace w1 = true -> allspace w2 = true ->
  returns env (w1 ++ text ++ w2) err = returns env text err.
Proof.
  intros H1 H2. apply returns_text_lower. unfold text_lower_of, lower.
  rewrite !map_app. apply strip_pad; fold (lower w1); fold (lower w2);
    now rewrite allspace_lower.
Qed.

Lemma padding_ignored_witness :
  returns module_env (py "   " ++ py "Mhm, okay" ++ py "  ") [] =
  returns module_env (py "Mhm, okay") [].
Proof. apply padding_ignored; reflexivity. Defined.

(** ** Joining utterances *)

Lemma split_app_sep (a : str) (c : char) (b : str) :
  isspace c = true -> split (a ++ c :: b) = split a ++ split b.
Proof.
  intros Hc. induction a as [|x a IH].
  - simpl app. now rewrite split_cons_space.
  - rewrite <- app_comm_cons. destruct (isspace x) eqn:Hx.
    + now rewrite !split_cons_space.
    + rewrite !split_cons_word by assumption. destruct a as [|d a].
      * simpl app. cbv iota. rewrite Hc. now rewrite split_cons_space.
      * rewrite <- app_comm_cons in *. rewrite IH.
        destruct (isspace d) eqn:Hd; [reflexivity|].
        destruct (split_head d a Hd) as [w [ws ->]]. reflexivity.
Qed.

Lemma split_app_allspace (a sep b : str) :
  allspace sep = true -> sep <> [] ->
  split (a ++ sep ++ b) = split a ++ split b.
Proof.
  intros Hs Hne. destruct sep as [|c sep]; [congruence|].
  simpl in Hs. apply andb_true_iff in Hs as [Hc Hs].
  rewrite <- app_comm_cons, split_app_sep by assumption.
  now rewrite split_app_space_l.
Qed.

Lemma isspace_not_punct (c : char) : isspace c = true -> is_punct c = false.
Proof.
  destruct c as [[[] [] [] [] [] [] [] []] | | | |]; vm_compute; intros H;
    solve [reflexivity | discriminate H].
Qed.

Lemma filter_punct_allspace (w : str) :
  allspace w = true -> filter (fun c => negb (is_punct c)) w = w.
Proof.
  induction w as [|c w IH]; [reflexivity|]. simpl.
  intros H. apply andb_true_iff in H as [Hc H].
  now rewrite (isspace_not_punct _ Hc), IH.
Qed.

Lemma normalize_join (s sep t : str) :
  allspace sep = true -> sep <> [] ->
  normalize (s ++ sep ++ t) = normalize s ++ normalize t.
Proof.
  intros Hs Hne. rewrite !normalize_eq_spec. unfold normalize_spec, lower.
  rewrite !map_app, !filter_app. fold (lower sep).
  assert (Hl : allspace (lower sep) = true) by now rewrite allspace_lower.
  rewrite (filter_punct_allspace _ Hl).
  apply split_app_allspace; [assumption|].
  destruct sep; [congruence | discriminate].
Qed.

(** X4: the tokens of two texts joined by white space are the tokens of the
    first followed by the tokens of the second. *)
Theorem normalize_joined (s sep t : str) :
  allspace sep = true -> sep <> [] ->
  normalize (s ++ sep ++ t) = normalize s ++ normalize t.
Proof. apply normalize_join. Qed.

Lemma normalize_joined_witness :
  normalize (py "Yeah, I" ++ py "  " ++ py "KNOW.") =
  normalize (py "Yeah, I") ++ normalize (py "KNOW.").
Proof.
  apply normalize_joined; [reflexivity | vm_compute; discriminate].
Defined.

Lemma returns_join (env : Env) (s sep t : str) (err : Stderr) :
  separated env = true -> allspace sep = true -> sep <> [] ->
  returns env (s ++ sep ++ t) err =
  negb (List.length (normalize s ++ normalize t) =? 0)%nat
  && forallb (fun w => mem w (BACKCHANNEL_WORDS env)) (normalize s)
  && forallb (fun w => mem w (BACKCHANNEL_WORDS env)) (normalize t).
Proof.
  intros Hsep Hs Hne. rewrite (returns_tokens _ _ _ Hsep).
  rewrite (normalize_join _ _ _ Hs Hne), <- andb_assoc, <- forallb_app.
  now destruct (normalize s ++ normalize t).
Qed.

(** X5: two backchannel-only utterances joined by white space are a
    backchannel-only utterance, when the sets are [separated] as the
    module's are. *)
Theorem join_backchannel_only (env : Env) (s sep t : str) (err : Stderr) :
  separated env = true -> allspace sep = true -> sep <> [] ->
  returns env s err = true -> returns env t err = true ->
  returns env (s ++ sep ++ t) err = true.
Proof.
  intros Hsep Hs Hne Hrs Hrt. rewrite (returns_join _ _ _ _ _ Hsep Hs Hne).
  apply returns_true_iff in Hrs as [_ [_ [Hn ->]]].
  apply returns_true_iff in Hrt as [_ [_ [_ ->]]].
  destruct (normalize s); [congruence | reflexivity].
Qed.

Lemma join_backchannel_only_witness :
  returns module_env (py "Yeah." ++ py " " ++ py "uh-huh, OK") [] = true.
Proof.
  apply join_backchannel_only; try reflexivity. vm_compute. discriminate.
Defined.

(** X6: backchannel words cannot mask other speech: an utterance that has
    tokens and is not backchannel-only stays so when more text is joined
    to it by white space, before or after. *)
Theorem join_keeps_interruption (env : Env) (s sep t : str) (err : Stderr) :
  separated env = true -> allspace sep = true -> sep <> [] ->
  normalize s <> [] -> returns env s err = false ->
  returns env (s ++ sep ++ t) err = false /\
  returns env (t ++ sep ++ s) err = false.
Proof.
  intros Hsep Hs Hne Hn Hr.
  rewrite !(returns_join _ _ _ _ _ Hsep Hs Hne).
  rewrite (returns_tokens _ _ _ Hsep) in Hr.
  destruct (normalize s) as [|w ws]; [congruence|]. rewrite Hr.
  split; [now rewrite andb_false_r | now rewrite !andb_false_r].
Qed.

Lemma join_keeps_interruption_witness :
  returns module_env (py "why?" ++ py " " ++ py "yeah ok") [] = false /\
  returns module_env (py "yeah ok" ++ py " " ++ py "why?") [] = false.
Proof.
  apply join_keeps_interruption; try reflexivity; vm_compute; discriminate.
Defined.

(** ** What a call prints *)

(** X7: a call prints the line with the text it was given and, when it
    reaches the test of the words, a second line with the tokens and the
    very value it returns; when the second line is missing the call
    returned [False]. *)
Theorem debug_lines_report_result (env : Env) (text : str) (err : Stderr) :
  (snd (is_backchannel_only env text err) = err ++ [DebugCalled text] /\
   returns env text err = false) \/
  (snd (is_backchannel_only env text err) =
     err ++ [DebugCalled text;
             DebugWords (normalize text) (returns env text err)] /\
   normalize text <> [] /\
   existsb (fun cmd => contains cmd (text_lower_of text)) (COMMAND_WORDS env)
     = false).
Proof.
  unfold returns, is_backchannel_only, bind, print, ret, normalize.
  destruct text as [|c text]; [left; split; reflexivity|].
  set (tl := text_lower_of (c :: text)).
  destruct (existsb _ (COMMAND_WORDS env)); [left; split; reflexivity|].
  destruct (words_of tl) as [|w ws]; [left; split; reflexivity|].
  right. simpl. rewrite <- app_assoc. repeat split. discriminate.
Qed.

(** ** The tokens *)

Lemma split_nospace (w : str) :
  w <> [] -> nospace w = true -> split w = [w].
Proof.
  induction w as [|c w IH]; [congruence|]. intros _ H. simpl in H.
  apply andb_true_iff in H as [Hc H]. apply negb_true_iff in Hc.
  rewrite split_cons_word by assumption. destruct w as [|d w]; [reflexivity|].
  rewrite IH by (assumption || discriminate).
  simpl in H. apply andb_true_iff in H as [Hd _].
  apply negb_true_iff in Hd. now rewrite Hd.
Qed.

Lemma lower_char_twice (c : char) : lower_char (lower_char c) = lower_char c.
Proof. each_char c. Qed.

Lemma split_chars (s w : str) (c : char) :
  In w (split s) -> In c w -> In c s.
Proof.
  intros Hw Hc.
  assert (H : In c (List.concat (split s))).
  { apply in_concat. now exists w. }
  rewrite concat_split in H. now apply filter_In in H.
Qed.

Lemma token_chars (text w : str) (c : char) :
  In w (normalize text) -> In c w ->
  lower_char c = c /\ is_punct c = false /\ isspace c = false.
Proof.
  intros Hw Hc. rewrite normalize_eq_spec in Hw. unfold normalize_spec in Hw.
  pose proof (split_chars _ _ _ Hw Hc) as Hin.
  apply filter_In in Hin as [Hin Hp]. apply negb_true_iff in Hp.
  apply in_map_iff in Hin as [x [<- _]].
  pose proof (split_tokens (filter (fun c => negb (is_punct c)) (lower text)))
    as Ht.
  rewrite Forall_forall in Ht. destruct (Ht _ Hw) as [_ Hns].
  unfold nospace in Hns. rewrite forallb_forall in Hns.
  specialize (Hns _ Hc). apply negb_true_iff in Hns.
  repeat split; try assumption. apply lower_char_twice.
Qed.

Lemma token_normal_form (text w : str) :
  In w (normalize text) ->
  normalize w = [w] /\
  forallb (fun c => negb (is_punct c) && negb (isspace c)) w = true.
Proof.
  intros Hw.
  assert (Hch : forall c, In c w ->
            lower_char c = c /\ is_punct c = false /\ isspace c = false).
  { intros c Hc. exact (token_chars _ _ _ Hw Hc). }
  assert (Hne : w <> []).
  { rewrite normalize_eq_spec in Hw.
    pose proof (split_tokens
      (filter (fun c => negb (is_punct c)) (lower text))) as Ht.
    rewrite Forall_forall in Ht. now destruct (Ht _ Hw). }
  split.
  - rewrite normalize_eq_spec. unfold normalize_spec.
    assert (Hl : lower w = w).
    { unfold lower. clear Hw Hne. induction w as [|c w IH]; [reflexivity|].
      simpl. rewrite (proj1 (Hch c (or_introl eq_refl))).
      f_equal. apply IH. intros x Hx. apply Hch. now right. }
    assert (Hf : filter (fun c => negb (is_punct c)) w = w).
    { clear Hw Hne Hl. induction w as [|c w IH]; [reflexivity|].
      simpl. destruct (Hch c (or_introl eq_refl)) as [_ [-> _]].
      simpl. f_equal. apply IH. intros x Hx. apply Hch. now right. }
    rewrite Hl, Hf. apply split_nospace; [assumption|].
    apply forallb_forall. intros c Hc.
    now destruct (Hch c Hc) as [_ [_ ->]].
  - apply forallb_forall. intros c Hc.
    now destruct (Hch c Hc) as [_ [-> ->]].
Qed.

(** X8: every token is in normal form: it has no white space and none of
    the four marks, and normalizing it gives the token back.  So only a set
    entry that is its own normal form can ever match. *)
Theorem tokens_normal (text w : str) :
  In w (normalize text) ->
  normalize w = [w] /\
  forallb (fun c => negb (is_punct c) && negb (isspace c)) w = true.
Proof. apply token_normal_form. Qed.

Lemma tokens_normal_witness :
  normalize (py "uh-huh") = [py "uh-huh"] /\
  forallb (fun c => negb (is_punct c) && negb (isspace c)) (py "uh-huh")
    = true.
Proof.
  apply (tokens_normal (py "Well... UH-HUH!")). vm_compute. tauto.
Defined.

Lemma split_length_space (s : str) :
  (2 * List.length (split s) <= List.length s + 1)%nat /\
  match s with
  | [] => True
  | c :: _ => isspace c = true ->
              (2 * List.length (split s) <= List.length s)%nat
  end.
Proof.
  induction s as [|c s [IH1 IH2]]; [simpl; split; [lia | exact I]|].
  destruct (isspace c) eqn:Hc.
  - rewrite split_cons_space by assumption. simpl List.length.
    split; [lia | intros _; lia].
  - split; [|discriminate].
    rewrite split_cons_word by assumption. destruct s as [|d s]; [simpl; lia|].
    destruct (isspace d) eqn:Hd.
    + specialize (IH2 eq_refl). simpl List.length in *. lia.
    + destruct (split (d :: s)) as [|w ws]; simpl List.length in *; lia.
Qed.

Lemma split_length (s : str) :
  (2 * List.length (split s) <= List.length s + 1)%nat.
Proof. apply split_length_space. Qed.

(** X9: the tokens never take more room than the text: a text of [n]
    characters has at most [(n + 1) / 2] tokens, and together they have at
    most as many characters as the lowered text. *)
Theorem tokens_bounded (text : str) :
  (2 * List.length (normalize text) <= List.length text + 1)%nat /\
  (List.length (List.concat (normalize text))
   <= List.length (lower text))%nat.
Proof.
  rewrite normalize_eq_spec. unfold normalize_spec.
  assert (Hf : (List.length
                  (filter (fun c => negb (is_punct c)) (lower text))
                <= List.length text)%nat).
  { etransitivity; [apply filter_length_le|].
    unfold lower. now rewrite length_map. }
  split.
  - pose proof (split_length
      (filter (fun c => negb (is_punct c)) (lower text))). lia.
  - rewrite concat_split.
    etransitivity; [apply filter_length_le | apply filter_length_le].
Qed.

(** ** Texts without tokens *)

Lemma is_punct_lower (c : char) : is_punct (lower_char c) = is_punct c.
Proof. each_char c. Qed.

Lemma split_nil_allspace (s : str) : split s = [] -> allspace s = true.
Proof.
  intros H. pose proof (concat_split s) as Hc. rewrite H in Hc. simpl in Hc.
  apply forallb_forall. intros c Hin.
  destruct (isspace c) eqn:E; [reflexivity|].
  assert (Hf : In c (filter (fun c => negb (isspace c)) s)).
  { apply filter_In. split; [assumption | now rewrite E]. }
  rewrite <- Hc in Hf. destruct Hf.
Qed.

Lemma allspace_filter_punct (text : str) :
  allspace (filter (fun c => negb (is_punct c)) (lower text)) =
  forallb (fun c => isspace c || is_punct c) text.
Proof.
  induction text as [|c text IH]; [reflexivity|]. simpl.
  rewrite is_punct_lower. destruct (is_punct c) eqn:Hp; simpl.
  - now rewrite IH, orb_true_r.
  - now rewrite isspace_lower_char, IH, orb_false_r.
Qed.

(** X10: a text has no token exactly when it is made of white space and
    the marks [, . ! ?] only (the empty text, "...", "?!"); for such a text
    the call returns [False], whatever the word sets. *)
Theorem no_tokens_characterised (env : Env) (text : str) (err : Stderr) :
  (List.length (normalize text) =? 0)%nat =
    forallb (fun c => isspace c || is_punct c) text /\
  (forallb (fun c => isspace c || is_punct c) text = true ->
   returns env text err = false).
Proof.
  assert (H : (List.length (normalize text) =? 0)%nat =
              forallb (fun c => isspace c || is_punct c) text).
  { rewrite <- allspace_filter_punct, normalize_eq_spec. unfold normalize_spec.
    destruct (split _) as [|w ws] eqn:Hs.
    - symmetry. now apply split_nil_allspace.
    - destruct (allspace _) eqn:Ha; [|reflexivity].
      apply split_allspace in Ha. congruence. }
  split; [exact H|]. intros Hm. rewrite Hm in H.
  destruct (returns env text err) eqn:Hr; [|reflexivity].
  apply returns_true_tokens in Hr as [Hne _].
  destruct (normalize text); [congruence | discriminate].
Qed.

Lemma no_tokens_characterised_witness :
  returns module_env (py "?! ...") [] = false.
Proof.
  apply (proj2 (no_tokens_characterised module_env (py "?! ...") [])).
  reflexivity.
Defined.

(** ** Token by token *)

Lemma forallb_agree (f g : str -> bool) (l : list str) :
  (forall w, In w l -> f w = g w) -> forallb f l = forallb g l.
Proof.
  induction l as [|a l IH]; [reflexivity|]. intros H. simpl.
  rewrite (H a (or_introl eq_refl)), IH; [reflexivity|].
  intros w Hw. apply H. now right.
Qed.

(** X11: with [separated] sets a text that has tokens is backchannel-only
    exactly when each of its tokens, taken as a text of its own, is. *)
Theorem wordwise (env : Env) (text : str) (err : Stderr) :
  separated env = true -> normalize text <> [] ->
  returns env text err =
  forallb (fun w => returns env w err) (normalize text).
Proof.
  intros Hsep Hne. rewrite (returns_tokens _ _ _ Hsep).
  destruct (normalize text) as [|a ws] eqn:Hn; [congruence|].
  rewrite <- Hn. apply forallb_agree. intros w Hw.
  rewrite (returns_tokens _ _ _ Hsep).
  destruct (token_normal_form _ _ Hw) as [-> _]. simpl.
  now rewrite andb_true_r.
Qed.

Lemma wordwise_witness :
  returns module_env (py "Okay, sure, whatever") [] =
  forallb (fun w => returns module_env w [])
    (normalize (py "Okay, sure, whatever")).
Proof.
  apply wordwise; [reflexivity | vm_compute; discriminate].
Defined.

(** ** Changing the word sets *)

Lemma existsb_incl (f : str -> bool) (A B : list str) :
  (forall w, In w A -> In w B) -> existsb f B = false -> existsb f A = false.
Proof.
  intros H HB. destruct (existsb f A) eqn:HA; [|reflexivity].
  apply existsb_exists in HA as [x [Hx Hf]]. rewrite <- HB. symmetry.
  apply existsb_exists. exists x. split; [now apply H | assumption].
Qed.

(** X12: more backchannel words or fewer command words never turn a
    [True] into a [False]. *)
Theorem sets_monotone (env env' : Env) (text : str) (err : Stderr) :
  (forall w, In w (BACKCHANNEL_WORDS env) -> In w (BACKCHANNEL_WORDS env')) ->
  (forall w, In w (COMMAND_WORDS env') -> In w (COMMAND_WORDS env)) ->
  returns env text err = true -> returns env' text err = true.
Proof.
  intros Hb Hc Hr. apply returns_true_iff in Hr as [Ht [Hcmd [Hn Hall]]].
  apply returns_true_iff. repeat split; try assumption.
  - exact (existsb_incl _ _ _ Hc Hcmd).
  - rewrite forallb_forall in *. intros w Hw. apply mem_In, Hb, mem_In.
    now apply Hall.
Qed.

Lemma sets_monotone_witness :
  returns module_env (py "yeah, ok") [] = true.
Proof.
  apply (sets_monotone
           {| BACKCHANNEL_WORDS := BACKCHANNEL_WORDS scenario_env;
              COMMAND_WORDS := COMMAND_WORDS module_env |} module_env).
  - intros w. vm_compute. tauto.
  - intros w. vm_compute. tauto.
  - reflexivity.
Defined.
